(** * Shallow embedding of the HFC data-correction app (src/app.py)

    The Streamlit script is modelled as one run of a state transformer over
    the session state (the resolved set [corrected_errors], the pending map
    [all_corrections_data]) and the remote corrections blob.  Exceptions and
    [st.stop] end the run, keeping every mutation made before them. *)

From Stdlib Require Import List String Ascii ZArith Bool Lia Permutation.
Import ListNotations.
Open Scope string_scope.
Open Scope Z_scope.

(** ** Python string helpers *)
Module Py.

Definition is_digit (c : ascii) : bool :=
  let n := nat_of_ascii c in (Nat.leb 48 n && Nat.leb n 57)%bool.

Definition digit_val (c : ascii) : Z := Z.of_nat (nat_of_ascii c) - 48.

(** [str.lower] on ASCII letters.  Of the other characters only U+212A
    (which becomes 'k') and U+0130 (which becomes 'i' followed by U+0307)
    lower to text with ASCII letters, so neither can complete "min" or
    "max": [contains "min" (lower s)] agrees with [str.lower] on the bytes. *)
Definition lower_char (c : ascii) : ascii :=
  let n := nat_of_ascii c in
  if (Nat.leb 65 n && Nat.leb n 90)%bool then ascii_of_nat (n + 32) else c.

Fixpoint lower (s : string) : string :=
  match s with
  | EmptyString => EmptyString
  | String c t => String (lower_char c) (lower t)
  end.

(** [needle in hay] for strings. *)
Fixpoint contains (needle hay : string) : bool :=
  match hay with
  | EmptyString => String.prefix needle hay
  | String _ t => (String.prefix needle hay || contains needle t)%bool
  end.

(** Truthiness of a Python string. *)
Definition truthy (s : string) : bool :=
  match s with EmptyString => false | _ => true end.

(** [re.findall(r'\d+', s)]: the maximal runs of digits, left to right.
    [cur] is the run being read, reversed.  Digits here are ASCII 0-9;
    [\d] on a [str] also matches the other Unicode decimal digits, which
    this reading of the rule text leaves out. *)
Fixpoint digit_runs (cur : list ascii) (s : string) : list (list ascii) :=
  match s with
  | EmptyString => match cur with [] => [] | _ => [rev cur] end
  | String c t =>
      if is_digit c then digit_runs (c :: cur) t
      else match cur with
           | [] => digit_runs [] t
           | _ => rev cur :: digit_runs [] t
           end
  end.

Definition findall_digits (s : string) : list (list ascii) := digit_runs [] s.

(** [int(d)] for a run of digits. *)
Definition int_of_digits (ds : list ascii) : Z :=
  fold_left (fun acc d => acc * 10 + digit_val d) ds 0.


(** Text is kept as its UTF-8 bytes, as pandas and Streamlit hand it over;
    [decode] reads the code points of the Python [str].  A byte that starts
    no well-formed sequence reads as U+FFFD (text decoded by pandas is
    always well-formed). *)
Definition byte (c : ascii) : Z := Z.of_nat (nat_of_ascii c).
Definition cont (c : ascii) : bool := ((128 <=? byte c) && (byte c <? 192))%bool.
Definition cbits (c : ascii) : Z := byte c - 128.

Fixpoint decode (s : string) : list Z :=
  match s with
  | EmptyString => []
  | String a t =>
      let b := byte a in
      if b <? 128 then b :: decode t else
      match t with
      | EmptyString => [65533]
      | String a2 t2 =>
          if ((194 <=? b) && (b <=? 223) && cont a2)%bool
          then ((b - 192) * 64 + cbits a2) :: decode t2 else
          match t2 with
          | EmptyString => 65533 :: decode t
          | String a3 t3 =>
              let cp3 := (b - 224) * 4096 + cbits a2 * 64 + cbits a3 in
              if ((224 <=? b) && (b <=? 239) && cont a2 && cont a3 && (2048 <=? cp3)
                  && negb ((55296 <=? cp3) && (cp3 <=? 57343)))%bool
              then cp3 :: decode t3 else
              match t3 with
              | EmptyString => 65533 :: decode t
              | String a4 t4 =>
                  let cp4 := (b - 240) * 262144 + cbits a2 * 4096 + cbits a3 * 64 + cbits a4 in
                  if ((240 <=? b) && (b <=? 244) && cont a2 && cont a3 && cont a4
                      && (65536 <=? cp4) && (cp4 <=? 1114111))%bool
                  then cp4 :: decode t4 else 65533 :: decode t
              end
          end
      end
  end.

(** [str.isspace()] characters (Unicode 14.0, Python 3.11): the ones
    [str.strip()] removes. *)
Definition space_chars : list Z :=
  [9; 10; 11; 12; 13; 28; 29; 30; 31; 32; 133; 160; 5760; 8192; 8193; 8194; 8195;
   8196; 8197; 8198; 8199; 8200; 8201; 8202; 8232; 8233; 8239; 8287; 12288].
Definition is_space (c : Z) : bool := existsb (Z.eqb c) space_chars.

Fixpoint drop_space (u : list Z) : list Z :=
  match u with
  | c :: t => if is_space c then drop_space t else u
  | [] => []
  end.
(** [str.strip()]. *)
Definition strip (u : list Z) : list Z := List.rev (drop_space (List.rev (drop_space u))).

(** Truthiness of a Python [str]. *)
Definition truthy_str (u : list Z) : bool := match u with [] => false | _ => true end.

(** The code points with a decimal digit value (Unicode 14.0) come in runs
    of ten, 0 to 9; these are the first of each run. *)
Definition decimal_starts : list Z :=
  [48; 1632; 1776; 1984; 2406; 2534; 2662; 2790; 2918; 3046; 3174; 3302; 3430; 3558;
   3664; 3792; 3872; 4160; 4240; 6112; 6160; 6470; 6608; 6784; 6800; 6992; 7088; 7232;
   7248; 42528; 43216; 43264; 43472; 43504; 43600; 44016; 65296; 66720; 68912; 69734;
   69872; 69942; 70096; 70384; 70736; 70864; 71248; 71360; 71472; 71904; 72016; 72784;
   73040; 73120; 92768; 92864; 93008; 120782; 120792; 120802; 120812; 120822; 123200;
   123632; 125264; 130032].
Definition decimal (c : Z) : option Z :=
  match find (fun b => ((b <=? c) && (c <? b + 10))%bool) decimal_starts with
  | Some b => Some (c - b)
  | None => None
  end.

(** [int(s)] for a [str], base 10, as CPython's [PyLong_FromUnicodeObject]
    does it: a character outside ASCII becomes ' ' when it is whitespace and
    its ASCII digit when it is a decimal digit, any other one makes the text
    invalid; the ASCII text is then read by [PyLong_FromString]: leading
    C whitespace (space, \t, \n, \v, \f, \r), an optional sign, digits
    with single underscores between them, trailing C whitespace and nothing
    else, and at most 4300 digits ([sys.get_int_max_str_digits()]).
    [None] is ValueError. *)
Definition to_ascii (c : Z) : option Z :=
  if c <? 127 then Some c else if is_space c then Some 32 else
  match decimal c with Some d => Some (48 + d) | None => None end.

Fixpoint transform (u : list Z) : option (list Z) :=
  match u with
  | [] => Some []
  | c :: t => match to_ascii c, transform t with
              | Some a, Some r => Some (a :: r)
              | _, _ => None
              end
  end.

Definition c_isspace (c : Z) : bool := ((c =? 32) || ((9 <=? c) && (c <=? 13)))%bool.
Fixpoint skip_c_space (u : list Z) : list Z :=
  match u with
  | c :: t => if c_isspace c then skip_c_space t else u
  | [] => []
  end.

Fixpoint scan_digits (u : list Z) (acc : list Z) (prev_us : bool) : option (list Z * list Z) :=
  match u with
  | c :: t =>
      if ((48 <=? c) && (c <=? 57))%bool then scan_digits t ((c - 48) :: acc) false
      else if c =? 95 then (if prev_us then None else scan_digits t acc true)
      else if prev_us then None else Some (List.rev acc, u)
  | [] => if prev_us then None else Some (List.rev acc, [])
  end.

Definition int_of_string (s : string) : option Z :=
  match transform (decode s) with
  | None => None
  | Some a =>
      let a := skip_c_space a in
      let '(sign, b) := match a with
                        | 43 :: t => (1, t)
                        | 45 :: t => (-1, t)
                        | _ => (1, a)
                        end in
      match scan_digits b [] true with
      | Some (ds, rest) =>
          match skip_c_space rest with
          | [] => if Nat.leb (List.length ds) 4300
                  then Some (sign * fold_left (fun acc d => acc * 10 + d) ds 0) else None
          | _ => None
          end
      | None => None
      end
  end.

End Py.

(** ** Cells of the CSV tables read by pandas *)
Inductive Cell :=
| CInt (z : Z)          (* an integer column value *)
| CNaN                  (* a missing value (float nan) *)
| CStr (s : string).    (* an object column value *)

(** [int(cell)]: [int(nan)] raises ValueError. *)
Definition py_int (c : Cell) : option Z :=
  match c with
  | CInt z => Some z
  | CNaN => None
  | CStr s => Py.int_of_string s
  end.

(** ** Constraint bound inference (app.py 282-295) *)
Definition infer_bounds (constraint_text : string) : Z * Z :=
  let min_val := 0 in
  let max_val := 100000 in
  let max_val :=
    if Py.contains "max" (Py.lower constraint_text) then
      match rev (Py.findall_digits constraint_text) with
      | n :: _ => Py.int_of_digits n
      | [] => max_val
      end
    else max_val in
  let min_val :=
    if Py.contains "min" (Py.lower constraint_text) then
      match rev (Py.findall_digits constraint_text) with
      | n :: _ => Py.int_of_digits n
      | [] => min_val
      end
    else min_val in
  (min_val, max_val).

(** Safe current value (app.py 297-305). *)
Definition current_value (value : Cell) (min_val max_val : Z) : Z :=
  match py_int value with
  | Some v =>
      let v := if v <? min_val then min_val else v in
      if (negb (max_val =? 0) && (v >? max_val))%bool then max_val else v
  | None => min_val
  end.

(** ** Error records and keys *)

(** The identity and context columns shared by both source tables. *)
Record Ident := {
  unique_id : string; variable : string; username : string;
  supervisor : string; woreda : string; kebele : string;
  farmer_name : string; phone_no : string; subdate : string;
  value : Cell }.

(** A row of constraints.csv and of logic.csv. *)
Record CRow := { c_id : Ident; constraint : string }.
Record LRow := { l_id : Ident; troster_value : Cell  (* column 'Troster Value' *) }.

(** The pandas row kept as ['error_data'] of a pending entry. *)
Inductive ErrData := EC (r : CRow) | EL (r : LRow).

Definition ckey (r : CRow) : string :=
  "constraint_" ++ unique_id (c_id r) ++ "_" ++ variable (c_id r).
Definition lkey (r : LRow) : string :=
  "logic_" ++ unique_id (l_id r) ++ "_" ++ variable (l_id r).

Definition data_ident (d : ErrData) : Ident :=
  match d with EC r => c_id r | EL r => l_id r end.

(** An entry of [st.session_state.all_corrections_data]. *)
Record Pending := {
  error_type : string; error_data : ErrData;
  correct_value : Z; explanation : string }.

(** A Python dict with insertion order: assigning an existing key keeps its
    position, a new key goes last. *)
Definition Dict (V : Type) := list (string * V).

Fixpoint dict_set {V} (k : string) (v : V) (d : Dict V) : Dict V :=
  match d with
  | [] => [(k, v)]
  | (k', v') :: t => if String.eqb k k' then (k, v) :: t else (k', v') :: dict_set k v t
  end.

(** A Python set of strings. *)
Definition set_mem (k : string) (s : list string) : bool :=
  existsb (String.eqb k) s.
Definition set_add (k : string) (s : list string) : list string :=
  if set_mem k s then s else s ++ [k].

(** A row of corrections.csv. *)
Record CorrectionRecord := {
  cr_error_type : string; cr_username : string; cr_supervisor : string;
  cr_woreda : string; cr_kebele : string; cr_farmer_name : string;
  cr_phone_no : string; cr_subdate : string; cr_unique_id : string;
  cr_variable : string; cr_original_value : Cell; cr_reference_value : Cell;
  cr_correct_value : Z; cr_explanation : string; cr_corrected_by : string;
  cr_correction_date : string; cr_correction_timestamp : string }.

(** ** Session state and the run monad *)

(** [remote] is corrections.csv in the GitHub repo: its sha (a version
    counter) and its rows, or [None] when the file does not exist. *)
Record Sess := {
  corrected_errors : list string;
  all_corrections_data : Dict Pending;
  remote : option (nat * list CorrectionRecord) }.

Definition set_corrected (c : list string) (s : Sess) : Sess :=
  {| corrected_errors := c; all_corrections_data := all_corrections_data s; remote := remote s |}.
Definition set_pending (p : Dict Pending) (s : Sess) : Sess :=
  {| corrected_errors := corrected_errors s; all_corrections_data := p; remote := remote s |}.
Definition set_remote (r : option (nat * list CorrectionRecord)) (s : Sess) : Sess :=
  {| corrected_errors := corrected_errors s; all_corrections_data := all_corrections_data s; remote := r |}.

(** A computation of one script run: [None] is a raised exception (or
    [st.stop()]), which ends the run with the state reached so far. *)
Definition M (A : Type) := Sess -> Sess * option A.

Definition ret {A} (a : A) : M A := fun s => (s, Some a).
Definition bind {A B} (m : M A) (k : A -> M B) : M B :=
  fun s => match m s with
           | (s', Some a) => k a s'
           | (s', None) => (s', None)
           end.
Definition raise {A} : M A := fun s => (s, None).
Definition get : M Sess := fun s => (s, Some s).
Definition modify (f : Sess -> Sess) : M unit := fun s => (f s, Some tt).

Notation "x <- m ;; k" := (bind m (fun x => k)) (at level 61, m at next level, right associativity).
Notation "m ;;; k" := (bind m (fun _ => k)) (at level 61, right associativity).

Fixpoint mapM_ {A} (f : A -> M unit) (l : list A) : M unit :=
  match l with
  | [] => ret tt
  | x :: t => f x ;;; mapM_ f t
  end.

(** ** The outside world of one run *)

(** The GitHub API as seen by [save_corrections_to_github]. *)
Record Net := { has_token : bool; get_ok : bool; put_ok : bool }.

(** The cached source tables, the selected account, the widgets' values
    and whether the save button was clicked.  [number_input key min max
    default] is the value the number widget holds: its default on the
    first run, then what the user entered (the browser keeps entries within
    the bounds). *)
Record Env := {
  constraints_df : list CRow; logic_df : list LRow;
  selected_enumerator : string;
  number_input : string -> Z -> Z -> Z -> Z;
  text_area : string -> string;
  clicked : bool; net : Net;
  now_date : string; now_timestamp : string }.

(** [st.number_input] with integer arguments (step 1): it raises
    StreamlitAPIException unless [min_value <= value <= max_value] and each
    of [min_value], [max_value] and [value] lies within JavaScript's safe
    integers, [-(2^53 - 1)] to [2^53 - 1]; otherwise it returns the
    widget's value. *)
Definition js_safe (z : Z) : bool := ((- (2 ^ 53 - 1) <=? z) && (z <=? 2 ^ 53 - 1))%bool.

Definition st_number_input (env : Env) (key : string) (min_value max_value value : Z) : M Z :=
  if (js_safe min_value && js_safe max_value && js_safe value
      && (min_value <=? value) && (value <=? max_value))%bool
  then ret (number_input env key min_value max_value value)
  else raise.

(** ** [save_corrections_to_github] (app.py 68-109)

    The CSV written is [corrections_df.to_csv()]; the GET only fetches the
    sha of the existing file.  The PUT succeeds (status 200/201) when the
    network lets it through and the sha matches the file: no sha for a new
    file, the current sha for an existing one (GitHub answers 409/422
    otherwise). *)
Definition save_corrections_to_github (n : Net) (corrections_df : list CorrectionRecord)
  : M bool :=
  fun s =>
    if negb (has_token n) then (s, Some false) else
    let sha := match remote s with
               | Some (v, _) => if get_ok n then Some v else None
               | None => None
               end in
    let sha_matches := match remote s, sha with
                       | None, None => true
                       | Some (v, _), Some w => Nat.eqb v w
                       | _, _ => false
                       end in
    if (put_ok n && sha_matches)%bool then
      let version := match remote s with Some (v, _) => S v | None => O end in
      (set_remote (Some (version, corrections_df)) s, Some true)
    else (s, Some false).

(** ** Error extraction (app.py 213-227) *)
Definition enumerator_constraints (ctab : list CRow) (enum : string) (resolved : list string)
  : list CRow :=
  filter (fun x => negb (set_mem (ckey x) resolved))
    (filter (fun x => String.eqb (username (c_id x)) enum) ctab).

Definition enumerator_logic (ltab : list LRow) (enum : string) (resolved : list string)
  : list LRow :=
  filter (fun x => negb (set_mem (lkey x) resolved))
    (filter (fun x => String.eqb (username (l_id x)) enum) ltab).

Fixpoint insert_sorted (x : string) (l : list string) : list string :=
  match l with
  | [] => [x]
  | y :: t => if String.leb x y then x :: l else y :: insert_sorted x t
  end.

(** [sorted(set(...))]. *)
Definition sorted_set (l : list string) : list string :=
  fold_right insert_sorted [] (nodup string_dec l).

Definition all_farmers_with_errors (ec : list CRow) (el : list LRow) : list string :=
  sorted_set (map (fun r => unique_id (c_id r)) ec ++ map (fun r => unique_id (l_id r)) el).

(** ** Rendering the correction form (app.py 244-376) *)

(** One constraint error: bounds, safe current value, widgets, then the
    pending entry is (over)written.  The number widget raises when the
    value or the bounds are out of its range. *)
Definition render_constraint (env : Env) (error : CRow) : M unit :=
  let error_key := ckey error in
  let '(min_val, max_val) := infer_bounds (constraint error) in
  let cur := current_value (value (c_id error)) min_val max_val in
  cv <- st_number_input env ("value_" ++ error_key) min_val max_val cur ;;
  let ex := text_area env ("explain_" ++ error_key) in
  modify (fun s => set_pending
    (dict_set error_key {| error_type := "constraint"; error_data := EC error;
                           correct_value := cv; explanation := ex |}
       (all_corrections_data s)) s).

(** One logic error: the difference shown on line 345 and the widget bounds
    use unguarded [int(...)] calls, a ValueError ends the run, and so does
    the number widget when its value or bounds are out of range. *)
Definition render_logic (env : Env) (discrepancy : LRow) : M unit :=
  let error_key := lkey discrepancy in
  match py_int (value (l_id discrepancy)), py_int (troster_value discrepancy) with
  | Some farmer_value, Some troster_value =>
      let max_val := Z.max farmer_value troster_value * 2 in
      cv <- st_number_input env ("value_" ++ error_key) 0 max_val farmer_value ;;
      let ex := text_area env ("explain_" ++ error_key) in
      modify (fun s => set_pending
        (dict_set error_key {| error_type := "logic"; error_data := EL discrepancy;
                               correct_value := cv; explanation := ex |}
           (all_corrections_data s)) s)
  | _, _ => raise
  end.

Definition render_farmer (env : Env) (ec : list CRow) (el : list LRow) (farmer_id : string)
  : M unit :=
  let fce := filter (fun r => String.eqb (unique_id (c_id r)) farmer_id) ec in
  let fle := filter (fun r => String.eqb (unique_id (l_id r)) farmer_id) el in
  if Nat.ltb 0 (List.length fce + List.length fle) then
    mapM_ (render_constraint env) fce ;;; mapM_ (render_logic env) fle
  else ret tt.

(** ** [validate_all_corrections] (app.py 383-401) *)
Definition missing_label (error_key : string) (cd : Pending) : string :=
  let error_type := if Py.contains "constraint" error_key then "Constraint" else "Logic" in
  error_type ++ " error for " ++ variable (data_ident (error_data cd)).

Definition is_completed (cd : Pending) : bool :=
  (Py.truthy (explanation cd) && Py.truthy_str (Py.strip (Py.decode (explanation cd))))%bool.

Fixpoint count_loop (d : Dict Pending) (completed : nat) (missing : list string)
  : nat * list string :=
  match d with
  | [] => (completed, missing)
  | (k, cd) :: t =>
      if is_completed cd then count_loop t (S completed) missing
      else count_loop t completed (missing ++ [missing_label k cd])
  end.

Definition validate_all_corrections (ec : list CRow) (el : list LRow) (d : Dict Pending)
  : bool * list string * nat * nat :=
  let total_errors := (List.length ec + List.length el)%nat in
  let '(completed, missing) := count_loop d O [] in
  (Nat.eqb completed total_errors, missing, completed, total_errors).

(** ** The save button (app.py 403-478) *)

(** The record built for one pending entry.  The branch is chosen by the
    ['error_type'] tag; reading a column the stored row lacks raises
    KeyError. *)
Definition correction_record (env : Env) (cd : Pending) : M CorrectionRecord :=
  let mk (et : string) (e : Ident) (reference : Cell) :=
    {| cr_error_type := et; cr_username := username e; cr_supervisor := supervisor e;
       cr_woreda := woreda e; cr_kebele := kebele e; cr_farmer_name := farmer_name e;
       cr_phone_no := phone_no e; cr_subdate := subdate e; cr_unique_id := unique_id e;
       cr_variable := variable e; cr_original_value := value e;
       cr_reference_value := reference; cr_correct_value := correct_value cd;
       cr_explanation := explanation cd; cr_corrected_by := selected_enumerator env;
       cr_correction_date := now_date env; cr_correction_timestamp := now_timestamp env |} in
  if String.eqb (error_type cd) "constraint" then
    match error_data cd with
    | EC r => ret (mk "constraint" (c_id r) (CStr (constraint r)))
    | EL _ => raise
    end
  else
    match error_data cd with
    | EL r => ret (mk "logic" (l_id r) (troster_value r))
    | EC _ => raise
    end.

(** The loop over [all_corrections_data.items()]: each record is appended,
    then its key is added to [corrected_errors]. *)
Fixpoint build_corrections (env : Env) (d : Dict Pending) (acc : list CorrectionRecord)
  : M (list CorrectionRecord) :=
  match d with
  | [] => ret acc
  | (error_key, cd) :: t =>
      rec <- correction_record env cd ;;
      modify (fun s => set_corrected (set_add error_key (corrected_errors s)) s) ;;;
      build_corrections env t (acc ++ [rec])
  end.

Inductive Outcome :=
| AllCorrected      (* no farmer left: the form and the button are not shown *)
| Rendered          (* the form was shown, the button not clicked *)
| Saved (n : nat)   (* the write succeeded; [st.rerun()] follows *)
| SaveFailed        (* "Failed to save to repository. Please try again." *)
| NothingToSave.    (* "No corrections found to save." *)

(** The click handler; a failed validation ends the run with [st.stop()]. *)
Definition save_handler (env : Env) (ec : list CRow) (el : list LRow) : M Outcome :=
  s <- get ;;
  let '(is_valid, missing_list, completed, total) :=
    validate_all_corrections ec el (all_corrections_data s) in
  if negb is_valid then raise else
  corrections <- build_corrections env (all_corrections_data s) [] ;;
  match corrections with
  | [] => ret NothingToSave
  | _ :: _ =>
      ok <- save_corrections_to_github (net env) corrections ;;
      if ok then
        modify (set_pending []) ;;; ret (Saved (List.length corrections))
      else ret SaveFailed
  end.

(** ** One run of the enumerator view (app.py 196-478) *)
Definition script (env : Env) : M Outcome :=
  s <- get ;;
  let ec := enumerator_constraints (constraints_df env) (selected_enumerator env)
              (corrected_errors s) in
  let el := enumerator_logic (logic_df env) (selected_enumerator env)
              (corrected_errors s) in
  match all_farmers_with_errors ec el with
  | [] => ret AllCorrected
  | farmers =>
      mapM_ (render_farmer env ec el) farmers ;;;
      if clicked env then save_handler env ec el else ret Rendered
  end.

(** The session at start-up (app.py 130-133). *)
Definition init_sess (r : option (nat * list CorrectionRecord)) : Sess :=
  {| corrected_errors := []; all_corrections_data := []; remote := r |}.

(** Sessions reachable by successive runs over the same cached tables. *)
Inductive reachable (ctab : list CRow) (ltab : list LRow) : Sess -> Prop :=
| reach_init r : reachable ctab ltab (init_sess r)
| reach_run s env :
    reachable ctab ltab s ->
    constraints_df env = ctab -> logic_df env = ltab ->
    reachable ctab ltab (fst (script env s)).

(** ** A small session used by the examples below

    Two accounts: alice has a constraint error on farmer 1 (rule "max 500",
    reported 600) and a logic error on farmer 2 (reported 40, system 25);
    bob has a constraint error on farmer 3.  The number widget returns its
    default clamped into its bounds. *)
Module Sample.

Definition idn (uid var u : string) (v : Cell) : Ident :=
  {| unique_id := uid; variable := var; username := u; supervisor := "sup";
     woreda := "wor"; kebele := "keb"; farmer_name := "farmer" ++ uid;
     phone_no := "09" ++ uid; subdate := "01-Jan-25"; value := v |}.

Definition ra : CRow := {| c_id := idn "1" "v1" "alice" (CInt 600); constraint := "max 500" |}.
Definition rb : LRow := {| l_id := idn "2" "v2" "alice" (CInt 40); troster_value := CInt 25 |}.
Definition rc : CRow := {| c_id := idn "3" "v3" "bob" (CInt 7); constraint := "min 0 max 10" |}.

Definition ctab : list CRow := [ra; rc].
Definition ltab : list LRow := [rb].

Definition clamp_widget (_ : string) (lo hi d : Z) : Z := Z.min (Z.max d lo) hi.

Definition mk_env (enum : string) (text : string -> string) (click put : bool) : Env :=
  {| constraints_df := ctab; logic_df := ltab; selected_enumerator := enum;
     number_input := clamp_widget; text_area := text; clicked := click;
     net := {| has_token := true; get_ok := true; put_ok := put |};
     now_date := "14-Oct-26"; now_timestamp := "2026-10-14T10:00:00" |}.

Definition s0 : Sess := init_sess None.

End Sample.

(** * Properties *)

(** ** Digit runs *)









(** ** Bound inference and the current value *)




(** ** Run-monad lemmas *)

Lemma bind_inv {A B} (m : M A) (k : A -> M B) s s' o :
  bind m k s = (s', o) ->
  (exists s1 a, m s = (s1, Some a) /\ k a s1 = (s', o)) \/ (m s = (s', None) /\ o = None).
Proof.
  unfold bind. destruct (m s) as [s1 [a|]]; intros H.
  - left. exists s1, a. split; [reflexivity | exact H].
  - right. injection H as -> <-. split; reflexivity.
Qed.

(** A property of the session kept by every step of a loop is kept by the loop. *)
Lemma mapM_preserve {A} (f : A -> M unit) (I : Sess -> Prop) l :
  (forall x, In x l -> forall s s' o, f x s = (s', o) -> I s -> I s') ->
  forall s s' o, mapM_ f l s = (s', o) -> I s -> I s'.
Proof.
  induction l as [|x t IH]; intros Hf s s' o H Hs; simpl in H.
  - injection H as <- _. exact Hs.
  - apply bind_inv in H as [(s1 & [] & H1 & H2) | (H1 & _)].
    + eapply IH; [intros y Hy; apply Hf; right; exact Hy | exact H2 |].
      eapply Hf; [left; reflexivity | exact H1 | exact Hs].
    + eapply Hf; [left; reflexivity | exact H1 | exact Hs].
Qed.

(** A property kept by every step and established by the step at [x] holds
    after the loop completes, when [x] is one of its items. *)
Lemma mapM_establish {A} (f : A -> M unit) (I : Sess -> Prop) l x :
  (forall y, In y l -> forall s s' o, f y s = (s', o) -> I s -> I s') ->
  (forall s s', f x s = (s', Some tt) -> I s') ->
  In x l -> forall s s', mapM_ f l s = (s', Some tt) -> I s'.
Proof.
  intros Hp Hx; induction l as [|y t IH]; intros Hin s s' H; [destruct Hin|].
  simpl in H. apply bind_inv in H as [(s1 & [] & H1 & H2) | (_ & H2)]; [|discriminate].
  destruct Hin as [<- | Hin].
  - eapply mapM_preserve; [intros z Hz; apply Hp; right; exact Hz | exact H2 | ].
    eapply Hx. exact H1.
  - eapply IH; [intros z Hz; apply Hp; right; exact Hz | exact Hin | exact H2].
Qed.

Lemma mapM_ok_each {A} (f : A -> M unit) l s s' :
  mapM_ f l s = (s', Some tt) -> forall x, In x l -> exists s1 s2, f x s1 = (s2, Some tt).
Proof.
  revert s; induction l as [|y t IH]; intros s H x Hin; [destruct Hin|].
  simpl in H. apply bind_inv in H as [(s1 & [] & H1 & H2) | (_ & H2)]; [|discriminate].
  destruct Hin as [<- | Hin]; [exists s, s1; exact H1 | exact (IH s1 H2 x Hin)].
Qed.

(** ** Python dict and set lemmas *)

Lemma dict_set_in {V} k (v : V) d : In (k, v) (dict_set k v d).
Proof.
  induction d as [|[k' v'] t IH]; simpl; [left; reflexivity|].
  destruct (String.eqb_spec k k'); [left; reflexivity | right; exact IH].
Qed.

Lemma dict_set_in_inv {V} k (v : V) d k' v' :
  In (k', v') (dict_set k v d) -> (k' = k /\ v' = v) \/ In (k', v') d.
Proof.
  induction d as [|[k0 v0] t IH]; simpl.
  - intros [H|[]]. injection H as <- <-. left. split; reflexivity.
  - destruct (String.eqb_spec k k0); simpl.
    + intros [H|H]; [injection H as <- <-; left; split; reflexivity | right; right; exact H].
    + intros [H|H]; [right; left; exact H|].
      destruct (IH H) as [E|E]; [left; exact E | right; right; exact E].
Qed.

Lemma dict_set_keep {V} k (v : V) d k' v' :
  In (k', v') d -> k' <> k -> In (k', v') (dict_set k v d).
Proof.
  induction d as [|[k0 v0] t IH]; simpl; [intros []|].
  intros [H|H] Hne.
  - injection H as -> ->. destruct (String.eqb_spec k k'); [congruence | left; reflexivity].
  - destruct (String.eqb_spec k k0); [right; exact H | right; exact (IH H Hne)].
Qed.

Lemma set_mem_add k j l : set_mem k (set_add j l) = (set_mem k l || String.eqb k j)%bool.
Proof.
  unfold set_add, set_mem. destruct (existsb (String.eqb j) l) eqn:E.
  - destruct (String.eqb_spec k j) as [->|Hne].
    + rewrite E. reflexivity.
    + rewrite orb_false_r. reflexivity.
  - rewrite existsb_app. simpl. rewrite orb_false_r. reflexivity.
Qed.

Lemma set_mem_true k l : set_mem k l = true <-> In k l.
Proof.
  unfold set_mem. rewrite existsb_exists. split.
  - intros (x & Hx & E). apply String.eqb_eq in E. subst. exact Hx.
  - intros H. exists k. split; [exact H | apply String.eqb_refl].
Qed.

Lemma sorted_set_in x l : In x (sorted_set l) <-> In x l.
Proof.
  unfold sorted_set. rewrite <- (nodup_In string_dec l x).
  generalize (nodup string_dec l). intros l'.
  assert (Hins : forall y m, In x (insert_sorted y m) <-> y = x \/ In x m).
  { intros y m. induction m as [|z m IH]; simpl; [tauto|].
    destruct (String.leb y z); simpl; [tauto | rewrite IH; tauto]. }
  induction l' as [|y m IH]; simpl; [tauto|]. rewrite Hins, IH. intuition.
Qed.

(** ** What a rendering step writes *)

Section Render.
Variable env : Env.
Variables (ec : list CRow) (el : list LRow).

(** An entry holds the values of its key's widgets in this run. *)
Definition widget_entry (k : string) (cd : Pending) : Prop :=
  explanation cd = text_area env ("explain_" ++ k)
  /\ exists lo hi d, correct_value cd = number_input env ("value_" ++ k) lo hi d.

(** An entry is the one of a source row, with its key and type tag. *)
Definition source_entry (ctab : list CRow) (ltab : list LRow) (k : string) (cd : Pending)
  : Prop :=
  (exists r, In r ctab /\ k = ckey r /\ error_data cd = EC r /\ error_type cd = "constraint")
  \/ (exists r, In r ltab /\ k = lkey r /\ error_data cd = EL r /\ error_type cd = "logic").

Definition new_entry (k : string) (cd : Pending) : Prop :=
  widget_entry k cd /\ source_entry ec el k cd.

(** One rendering step leaves the state alone or writes one new entry. *)
Definition writes (s s' : Sess) : Prop :=
  s' = s \/ exists k cd, new_entry k cd /\ s' = set_pending (dict_set k cd (all_corrections_data s)) s.

Lemma render_constraint_writes r s :
  In r ec ->
  render_constraint env r s = (s, None)
  \/ exists cd, new_entry (ckey r) cd
       /\ render_constraint env r s
          = (set_pending (dict_set (ckey r) cd (all_corrections_data s)) s, Some tt).
Proof.
  intros Hr. unfold render_constraint, st_number_input, bind.
  destruct (infer_bounds (constraint r)) as [mn mx].
  match goal with |- context [if ?b then _ else _] => destruct b end;
    cbv [ret raise modify]; [right | left; reflexivity].
  eexists. split; [|reflexivity].
  split; [split; [reflexivity | do 3 eexists; reflexivity]|].
  left. exists r. repeat split; assumption.
Qed.

Lemma render_logic_writes r s :
  In r el ->
  render_logic env r s = (s, None)
  \/ exists cd, new_entry (lkey r) cd
       /\ render_logic env r s = (set_pending (dict_set (lkey r) cd (all_corrections_data s)) s, Some tt).
Proof.
  intros Hr. unfold render_logic.
  destruct (py_int (value (l_id r))) as [f|]; [|left; reflexivity].
  destruct (py_int (troster_value r)) as [t|]; [|left; reflexivity].
  unfold st_number_input, bind.
  match goal with |- context [if ?b then _ else _] => destruct b end;
    cbv [ret raise modify]; [right | left; reflexivity].
  eexists. split; [|reflexivity].
  split; [split; [reflexivity | do 3 eexists; reflexivity]|].
  right. exists r. repeat split; assumption.
Qed.

(** Loops over the rows of one farmer. *)
Lemma constraint_loop_preserve (I : Sess -> Prop) rows :
  (forall s s', writes s s' -> I s -> I s') -> incl rows ec ->
  forall s s' o, mapM_ (render_constraint env) rows s = (s', o) -> I s -> I s'.
Proof.
  intros HI Hincl. apply mapM_preserve. intros r Hr s2 s3 o3 H3 Hs2.
  destruct (render_constraint_writes r s2 (Hincl r Hr)) as [E | (cd & Hn & E)];
    rewrite E in H3; injection H3 as <- _; [exact Hs2|].
  apply (HI s2); [|exact Hs2].
  right. exists (ckey r), cd. split; [exact Hn | reflexivity].
Qed.

Lemma logic_loop_preserve (I : Sess -> Prop) rows :
  (forall s s', writes s s' -> I s -> I s') -> incl rows el ->
  forall s s' o, mapM_ (render_logic env) rows s = (s', o) -> I s -> I s'.
Proof.
  intros HI Hincl. apply mapM_preserve. intros r Hr s2 s3 o3 H3 Hs2.
  destruct (render_logic_writes r s2 (Hincl r Hr)) as [E | (cd & Hn & E)];
    rewrite E in H3; injection H3 as <- _; [exact Hs2|].
  apply (HI s2); [|exact Hs2].
  right. exists (lkey r), cd. split; [exact Hn | reflexivity].
Qed.

Lemma incl_filter_l {A} (p : A -> bool) l : incl (filter p l) l.
Proof. intros x Hx. apply filter_In in Hx as [Hx _]. exact Hx. Qed.

Lemma render_farmer_preserve (I : Sess -> Prop) f :
  (forall s s', writes s s' -> I s -> I s') ->
  forall s s' o, render_farmer env ec el f s = (s', o) -> I s -> I s'.
Proof.
  intros HI s s' o H Hs. unfold render_farmer in H.
  destruct (Nat.ltb 0 _); [|injection H as <- _; exact Hs].
  apply bind_inv in H as [(s1 & [] & H1 & H2) | (H1 & _)].
  - eapply logic_loop_preserve; [exact HI | apply incl_filter_l | exact H2 |].
    eapply constraint_loop_preserve; [exact HI | apply incl_filter_l | exact H1 | exact Hs].
  - eapply constraint_loop_preserve; [exact HI | apply incl_filter_l | exact H1 | exact Hs].
Qed.

(** A property kept by every [writes] step is kept by the whole rendering
    pass over any list of farmers. *)
Lemma render_pass_preserve (I : Sess -> Prop) farmers :
  (forall s s', writes s s' -> I s -> I s') ->
  forall s s' o, mapM_ (render_farmer env ec el) farmers s = (s', o) -> I s -> I s'.
Proof.
  intros HI. apply mapM_preserve. intros f _. apply render_farmer_preserve. exact HI.
Qed.

(** The key [k] has an entry holding its widgets' values. *)
Definition has_entry (k : string) (s : Sess) : Prop :=
  exists cd, In (k, cd) (all_corrections_data s) /\ widget_entry k cd.

Lemma writes_has_entry k s s' : writes s s' -> has_entry k s -> has_entry k s'.
Proof.
  intros [-> | (k' & cd' & [Hw _] & ->)] Hs; [exact Hs|].
  destruct Hs as (cd & Hin & Hcd). simpl.
  destruct (String.eqb_spec k k') as [<- | Hne].
  - exists cd'. split; [apply dict_set_in | exact Hw].
  - exists cd. split; [apply dict_set_keep; assumption | exact Hcd].
Qed.

Lemma render_farmer_has_constraint r s s' :
  In r ec -> render_farmer env ec el (unique_id (c_id r)) s = (s', Some tt) ->
  has_entry (ckey r) s'.
Proof.
  intros Hr H. unfold render_farmer in H.
  set (fce := filter (fun x => String.eqb (unique_id (c_id x)) (unique_id (c_id r))) ec) in H.
  assert (Hin : In r fce) by (apply filter_In; split; [exact Hr | apply String.eqb_refl]).
  destruct (Nat.ltb 0 _) eqn:Hz in H.
  2: { apply Nat.ltb_ge in Hz. destruct fce; [destruct Hin | simpl in Hz; lia]. }
  apply bind_inv in H as [(s1 & [] & H1 & H2) | (_ & H2)]; [|discriminate].
  eapply logic_loop_preserve; [apply writes_has_entry | apply incl_filter_l | exact H2 |].
  eapply mapM_establish; [| | exact Hin | exact H1].
  - intros y Hy s3 s4 o4 H4. eapply constraint_loop_preserve with (rows := [y]) (o := o4);
      [apply writes_has_entry | intros z [<-|[]]; apply filter_In in Hy; apply Hy |].
    cbn [mapM_]. unfold bind. rewrite H4. destruct o4 as [[]|]; reflexivity.
  - intros s3 s4 H4. destruct (render_constraint_writes r s3 Hr) as [E | (cd & [Hw _] & E)];
      rewrite E in H4; [discriminate|]. injection H4 as <-.
    exists cd. split; [apply dict_set_in | exact Hw].
Qed.

Lemma render_farmer_has_logic r s s' :
  In r el -> render_farmer env ec el (unique_id (l_id r)) s = (s', Some tt) ->
  has_entry (lkey r) s'.
Proof.
  intros Hr H. unfold render_farmer in H.
  set (fle := filter (fun x => String.eqb (unique_id (l_id x)) (unique_id (l_id r))) el) in H.
  assert (Hin : In r fle) by (apply filter_In; split; [exact Hr | apply String.eqb_refl]).
  destruct (Nat.ltb 0 _) eqn:Hz in H.
  2: { apply Nat.ltb_ge in Hz. destruct fle; [destruct Hin | simpl in Hz; lia]. }
  apply bind_inv in H as [(s1 & [] & H1 & H2) | (_ & H2)]; [|discriminate].
  eapply mapM_establish; [| | exact Hin | exact H2].
  - intros y Hy s3 s4 o4 H4. eapply logic_loop_preserve with (rows := [y]) (o := o4);
      [apply writes_has_entry | intros z [<-|[]]; apply filter_In in Hy; apply Hy |].
    cbn [mapM_]. unfold bind. rewrite H4. destruct o4 as [[]|]; reflexivity.
  - intros s3 s4 H4. destruct (render_logic_writes r s3 Hr) as [E | (cd & [Hw _] & E)];
      rewrite E in H4; [discriminate|]. injection H4 as <-.
    exists cd. split; [apply dict_set_in | exact Hw].
Qed.

Lemma render_pass_has_constraint farmers r s s' :
  In r ec -> In (unique_id (c_id r)) farmers ->
  mapM_ (render_farmer env ec el) farmers s = (s', Some tt) -> has_entry (ckey r) s'.
Proof.
  intros Hr Hf H. eapply mapM_establish; [| | exact Hf | exact H].
  - intros y _. apply render_farmer_preserve. apply writes_has_entry.
  - intros s3 s4. apply render_farmer_has_constraint. exact Hr.
Qed.

Lemma render_pass_has_logic farmers r s s' :
  In r el -> In (unique_id (l_id r)) farmers ->
  mapM_ (render_farmer env ec el) farmers s = (s', Some tt) -> has_entry (lkey r) s'.
Proof.
  intros Hr Hf H. eapply mapM_establish; [| | exact Hf | exact H].
  - intros y _. apply render_farmer_preserve. apply writes_has_entry.
  - intros s3 s4. apply render_farmer_has_logic. exact Hr.
Qed.

End Render.

Lemma render_pass_session env ec el farmers s s' o :
  mapM_ (render_farmer env ec el) farmers s = (s', o) ->
  corrected_errors s' = corrected_errors s /\ remote s' = remote s.
Proof.
  intros H.
  apply (render_pass_preserve env ec el
           (fun x => corrected_errors x = corrected_errors s /\ remote x = remote s)
           farmers) with (s := s) (o := o); [| exact H | split; reflexivity].
  intros s1 s2 [-> | (k & cd & _ & ->)] Hs; exact Hs.
Qed.

(** ** The script and the save handler, case by case *)

Lemma script_cases env s s' o :
  script env s = (s', o) ->
  let ec := enumerator_constraints (constraints_df env) (selected_enumerator env) (corrected_errors s) in
  let el := enumerator_logic (logic_df env) (selected_enumerator env) (corrected_errors s) in
  (all_farmers_with_errors ec el = [] /\ s' = s /\ o = Some AllCorrected)
  \/ (all_farmers_with_errors ec el <> []
      /\ ((mapM_ (render_farmer env ec el) (all_farmers_with_errors ec el) s = (s', None) /\ o = None)
          \/ exists s1, mapM_ (render_farmer env ec el) (all_farmers_with_errors ec el) s = (s1, Some tt)
                /\ ((clicked env = true /\ save_handler env ec el s1 = (s', o))
                    \/ (clicked env = false /\ s' = s1 /\ o = Some Rendered)))).
Proof.
  intros H ec el. unfold script, bind, get at 1 in H. fold ec el in H.
  destruct (all_farmers_with_errors ec el) as [|f fs] eqn:Ef.
  - left. injection H as <- <-. repeat split.
  - right. split; [discriminate|]. rewrite <- Ef in H |- *.
    destruct (mapM_ (render_farmer env ec el) _ s) as [s1 [[]|]] eqn:E.
    + right. exists s1. split; [reflexivity|].
      destruct (clicked env); [left; split; [reflexivity | exact H] | right].
      injection H as <- <-. repeat split.
    + left. injection H as <- <-. split; reflexivity.
Qed.

Definition rec_rel (kc : string * Pending) (rec : CorrectionRecord) : Prop :=
  cr_correct_value rec = correct_value (snd kc)
  /\ cr_explanation rec = explanation (snd kc)
  /\ cr_unique_id rec = unique_id (data_ident (error_data (snd kc)))
  /\ cr_variable rec = variable (data_ident (error_data (snd kc))).

Lemma correction_record_inv env k cd s s' o :
  correction_record env cd s = (s', o) ->
  s' = s /\ forall rec, o = Some rec -> rec_rel (k, cd) rec.
Proof.
  unfold correction_record.
  destruct (String.eqb (error_type cd) "constraint"), (error_data cd) as [r|r] eqn:Ed;
    intros H; injection H as <- <-; split; try reflexivity; intros rec Hrec; try discriminate;
    injection Hrec as <-; unfold rec_rel; simpl; rewrite Ed; repeat split.
Qed.

Lemma build_corrections_inv env d acc s s' rows :
  build_corrections env d acc s = (s', Some rows) ->
  all_corrections_data s' = all_corrections_data s /\ remote s' = remote s
  /\ (forall k, set_mem k (corrected_errors s') = true
                <-> set_mem k (corrected_errors s) = true \/ In k (map fst d))
  /\ exists rs, rows = (acc ++ rs)%list /\ Forall2 rec_rel d rs.
Proof.
  revert acc s; induction d as [|[k cd] t IH]; intros acc s H; simpl in H.
  - injection H as <- <-. repeat split; try tauto.
    + intros [Hk | []]. exact Hk.
    + exists []. rewrite app_nil_r. split; [reflexivity | constructor].
  - apply bind_inv in H as [(s1 & rec & H1 & H2) | (_ & H2)]; [|discriminate].
    destruct (correction_record_inv env k cd s s1 _ H1) as [-> Hrec].
    unfold bind, modify in H2.
    destruct (IH _ _ H2) as (Hp & Hr & Hm & rs & Hrs & Hf).
    simpl in Hp, Hr. split; [exact Hp|]. split; [exact Hr|]. split.
    + intros k'. rewrite Hm. simpl. rewrite set_mem_add.
      destruct (String.eqb_spec k' k) as [->|Hne]; rewrite ?orb_true_r, ?orb_false_r.
      * split; intros _; [right; left; reflexivity | left; reflexivity].
      * split; [intros [Hx|Hx]; [left | right; right]; exact Hx|].
        intros [Hx|[Hx|Hx]]; [left; exact Hx | congruence | right; exact Hx].
    + exists (rec :: rs). rewrite Hrs, <- app_assoc. split; [reflexivity|].
      constructor; [apply Hrec; reflexivity | exact Hf].
Qed.

Lemma save_github_inv n rows s s' o :
  save_corrections_to_github n rows s = (s', o) ->
  (o = Some false /\ s' = s) \/ (o = Some true /\ exists v, s' = set_remote (Some (v, rows)) s).
Proof.
  unfold save_corrections_to_github.
  destruct (negb (has_token n)); [intros H; injection H as <- <-; left; split; reflexivity|].
  destruct (put_ok n && _)%bool; intros H; injection H as <- <-.
  - right. split; [reflexivity | eexists; reflexivity].
  - left. split; reflexivity.
Qed.

Lemma save_handler_cases env ec el s s' o :
  save_handler env ec el s = (s', o) ->
  let v := fst (fst (fst (validate_all_corrections ec el (all_corrections_data s)))) in
  (v = false /\ s' = s /\ o = None)
  \/ (v = true /\ exists s2 rows,
        build_corrections env (all_corrections_data s) [] s = (s2, Some rows)
        /\ ((rows = [] /\ s' = s2 /\ o = Some NothingToSave)
            \/ (rows <> [] /\ save_corrections_to_github (net env) rows s2 = (s2, Some false)
                /\ s' = s2 /\ o = Some SaveFailed)
            \/ (rows <> [] /\ exists ver, s' = set_pending [] (set_remote (Some (ver, rows)) s2)
                /\ o = Some (Saved (List.length rows)))))
  \/ (v = true /\ build_corrections env (all_corrections_data s) [] s = (s', None) /\ o = None).
Proof.
  intros H v. unfold save_handler, get at 1, bind at 1 in H.
  destruct (validate_all_corrections ec el (all_corrections_data s)) as [[[ok missing] c] t] eqn:Ev.
  simpl in v. subst v. destruct ok; simpl in H.
  2: { left. injection H as <- <-. repeat split. }
  unfold bind at 1 in H.
  destruct (build_corrections env (all_corrections_data s) [] s) as [s2 [rows|]] eqn:Eb.
  2: { right; right. injection H as <- <-. repeat split. }
  right; left. split; [reflexivity|]. exists s2, rows. split; [reflexivity|].
  destruct rows as [|r rs].
  - left. injection H as <- <-. repeat split.
  - right. unfold bind in H.
    destruct (save_corrections_to_github (net env) (r :: rs) s2) as [s3 o3] eqn:Eg.
    destruct (save_github_inv _ _ _ _ _ Eg) as [[-> ->] | [-> [ver ->]]].
    + left. injection H as <- <-. split; [discriminate|]. split; [reflexivity|].
      split; reflexivity.
    + right. split; [discriminate|]. exists ver.
      injection H as <- <-. split; reflexivity.
Qed.

(** * The claims *)
Import Sample.

(** C1 (code_bug): the write sends only the rows of the current save.
    alice saves her two corrections into a fresh ledger, then bob saves his
    one: the ledger ends with bob's row alone, alice's rows are gone. *)
Theorem ledger_append_drops_existing_rows :
  let s1 := fst (script (mk_env "alice" (fun _ => "checked") true true) s0) in
  let s2 := script (mk_env "bob" (fun _ => "checked") true true) s1 in
  (exists rows1, remote s1 = Some (O, rows1) /\ List.length rows1 = 2%nat)
  /\ snd s2 = Some (Saved 1)
  /\ exists rows2, remote (fst s2) = Some (1%nat, rows2) /\ List.length rows2 = 1%nat
       /\ forall rows1, remote s1 = Some (O, rows1) -> rows2 <> (rows1 ++ rows2)%list.
Proof.
  vm_compute. split; [eexists; split; reflexivity|]. split; [reflexivity|].
  eexists. split; [reflexivity|]. split; [reflexivity|].
  intros rows1 H. injection H as <-. intros E. apply (f_equal (@List.length _)) in E.
  simpl in E. discriminate.
Qed.

(** C2 (code_bug): a failed write still leaves the keys in the resolved set,
    so the retried run shows "All errors corrected" and cannot save. *)
Theorem failed_save_marks_resolved :
  let s1 := script (mk_env "alice" (fun _ => "checked") true false) s0 in
  snd s1 = Some SaveFailed
  /\ corrected_errors (fst s1) = [ckey ra; lkey rb]
  /\ all_corrections_data (fst s1) <> []
  /\ script (mk_env "alice" (fun _ => "checked") true true) (fst s1)
     = (fst s1, Some AllCorrected)
  /\ remote (fst s1) = None.
Proof.
  vm_compute. split; [reflexivity|]. split; [reflexivity|]. split; [discriminate|].
  split; reflexivity.
Qed.

(** C4 (code_bug): the completed count runs over every pending entry, the
    total over the outstanding errors only.  alice fills the explanation of
    her constraint error and leaves; bob then saves with no explanation:
    the check passes (1 of 1) while listing bob's missing explanation, and
    bob's row is committed with an empty explanation. *)
Definition alice_partial (k : string) : string :=
  if String.eqb k ("explain_" ++ ckey ra) then "farmer confirmed" else "".

Theorem validate_counts_stale_entries :
  let s1 := fst (script (mk_env "alice" alice_partial false true) s0) in
  let envb := mk_env "bob" (fun _ => "") true true in
  let ec := enumerator_constraints ctab "bob" (corrected_errors s1) in
  let el := enumerator_logic ltab "bob" (corrected_errors s1) in
  let s2 := fst (mapM_ (render_farmer envb ec el) (all_farmers_with_errors ec el) s1) in
  validate_all_corrections ec el (all_corrections_data s2)
    = (true, ["Logic error for v2"; "Constraint error for v3"], 1%nat, 1%nat)
  /\ snd (script envb s1) = Some (Saved 3)
  /\ exists ver rows, remote (fst (script envb s1)) = Some (ver, rows)
       /\ In (variable (c_id rc), "") (map (fun r => (cr_variable r, cr_explanation r)) rows).
Proof.
  vm_compute. split; [reflexivity|]. split; [reflexivity|].
  do 2 eexists. split; [reflexivity|]. simpl. tauto.
Qed.

(** C6 (code_bug): the upper clamp is guarded by [if max_val and], so a
    rule whose inferred max is 0 never lowers the value.  For the rule
    "max 0" (bounds 0 and 0) a reported 5 is kept as 5, outside [0, 0], and
    the number widget then raises on a value above its [max_value], so the
    row cannot be rendered. *)
Theorem max_zero_value_not_clamped :
  let r := {| c_id := idn "5" "v5" "alice" (CInt 5); constraint := "max 0" |} in
  infer_bounds "max 0" = (0, 0) /\ current_value (CInt 5) 0 0 = 5
  /\ ~ (0 <= current_value (CInt 5) 0 0 <= 0)
  /\ forall env s, render_constraint env r s = (s, None).
Proof.
  intros r. split; [vm_compute; reflexivity|].
  assert (H : current_value (CInt 5) 0 0 = 5) by reflexivity.
  split; [exact H|]. split; [rewrite H; lia|].
  intros env s. vm_compute. reflexivity.
Qed.

Lemma save_handler_refused env ec el s :
  fst (fst (fst (validate_all_corrections ec el (all_corrections_data s)))) = false ->
  save_handler env ec el s = (s, None).
Proof.
  intros Hv. unfold save_handler, get, bind at 1.
  destruct (validate_all_corrections ec el (all_corrections_data s)) as [[[ok m] c] t].
  simpl in Hv. subst ok. reflexivity.
Qed.

(** C7: when the click's validation fails, the run stops at [st.stop()]
    with the state the rendering left: no key is added to the resolved set,
    the pending map is the one just rendered and the ledger is untouched. *)
Theorem save_refused_no_state_change env s s1 :
  let ec := enumerator_constraints (constraints_df env) (selected_enumerator env) (corrected_errors s) in
  let el := enumerator_logic (logic_df env) (selected_enumerator env) (corrected_errors s) in
  clicked env = true -> all_farmers_with_errors ec el <> [] ->
  mapM_ (render_farmer env ec el) (all_farmers_with_errors ec el) s = (s1, Some tt) ->
  fst (fst (fst (validate_all_corrections ec el (all_corrections_data s1)))) = false ->
  script env s = (s1, None)
  /\ corrected_errors s1 = corrected_errors s /\ remote s1 = remote s.
Proof.
  intros ec el Hc Hne Hr Hv.
  destruct (render_pass_session _ _ _ _ _ _ _ Hr) as [Hce Hrem].
  split; [|split; assumption].
  unfold script, bind at 1, get at 1. fold ec el.
  destruct (all_farmers_with_errors ec el) eqn:Ef; [congruence|].
  unfold bind at 1. rewrite Hr, Hc. apply save_handler_refused. exact Hv.
Qed.

Lemma save_refused_no_state_change_witness :
  let env := mk_env "bob" (fun _ => "  ") true true in
  let ec := enumerator_constraints ctab "bob" [] in
  let el := enumerator_logic ltab "bob" [] in
  let s1 := fst (mapM_ (render_farmer env ec el) (all_farmers_with_errors ec el) s0) in
  script env s0 = (s1, None) /\ corrected_errors s1 = [] /\ remote s1 = None.
Proof.
  intros env ec el s1.
  apply (save_refused_no_state_change env s0 s1); vm_compute; first [reflexivity | discriminate].
Defined.

Lemma enumerator_constraints_unresolved ctab enum R r :
  In r (enumerator_constraints ctab enum R) -> set_mem (ckey r) R = false.
Proof.
  unfold enumerator_constraints. intros H. apply filter_In in H as [_ H].
  apply negb_true_iff. exact H.
Qed.

Lemma enumerator_logic_unresolved ltab enum R r :
  In r (enumerator_logic ltab enum R) -> set_mem (lkey r) R = false.
Proof.
  unfold enumerator_logic. intros H. apply filter_In in H as [_ H].
  apply negb_true_iff. exact H.
Qed.

(** C8: after a save whose write succeeded, every committed key (the key of
    every pending entry) is in the resolved set, and the outstanding errors
    of any account computed from that set contain no row with that key. *)
Theorem committed_keys_resolved env ec el s s' n :
  save_handler env ec el s = (s', Some (Saved n)) ->
  forall k, In k (map fst (all_corrections_data s)) ->
  set_mem k (corrected_errors s') = true
  /\ forall ctab ltab enum,
       (forall r, In r (enumerator_constraints ctab enum (corrected_errors s')) -> ckey r <> k)
       /\ (forall r, In r (enumerator_logic ltab enum (corrected_errors s')) -> lkey r <> k).
Proof.
  intros H k Hk.
  assert (Hm : set_mem k (corrected_errors s') = true).
  { apply save_handler_cases in H.
    destruct H as [(_ & _ & Ho) | [(_ & s2 & rows & Hb & Hcase) | (_ & _ & Ho)]];
      try discriminate.
    destruct (build_corrections_inv _ _ _ _ _ _ Hb) as (_ & _ & Hmem & _).
    destruct Hcase as [(_ & _ & Ho) | [(_ & _ & _ & Ho) | (_ & ver & -> & _)]];
      try discriminate.
    simpl. apply Hmem. right. exact Hk. }
  split; [exact Hm|]. intros ctab ltab enum. split.
  - intros r Hr E. apply enumerator_constraints_unresolved in Hr. congruence.
  - intros r Hr E. apply enumerator_logic_unresolved in Hr. congruence.
Qed.

Lemma committed_keys_resolved_witness :
  let env := mk_env "alice" (fun _ => "checked") true true in
  let ec := enumerator_constraints ctab "alice" [] in
  let el := enumerator_logic ltab "alice" [] in
  let s1 := fst (mapM_ (render_farmer env ec el) (all_farmers_with_errors ec el) s0) in
  set_mem (ckey ra) (corrected_errors (fst (save_handler env ec el s1))) = true
  /\ enumerator_constraints ctab "alice" (corrected_errors (fst (save_handler env ec el s1))) = [].
Proof.
  intros env ec el s1.
  destruct (committed_keys_resolved env ec el s1 (fst (save_handler env ec el s1)) 2
              ltac:(vm_compute; reflexivity) (ckey ra) ltac:(vm_compute; tauto))
    as [H1 H2].
  split; [exact H1 | vm_compute; reflexivity].
Defined.

(** C3 (code_bug): the records are built from every entry of the pending
    map, not from the outstanding errors of the selected account.  alice
    renders her two errors and leaves them unexplained; bob, with one
    outstanding error, explains it as " ok " and saves.  The check passes
    (1 of 1) and three records are committed: two for alice's keys, with
    empty explanations and signed as corrected by bob, and bob's own, whose
    explanation is kept with its spaces. *)
Theorem commit_records_stale_entries :
  let s1 := fst (script (mk_env "alice" (fun _ => "") false true) s0) in
  let envb := mk_env "bob" (fun _ => " ok ") true true in
  let ec := enumerator_constraints ctab "bob" (corrected_errors s1) in
  let el := enumerator_logic ltab "bob" (corrected_errors s1) in
  map ckey ec = [ckey rc] /\ el = []
  /\ snd (script envb s1) = Some (Saved 3)
  /\ exists ver rows, remote (fst (script envb s1)) = Some (ver, rows)
     /\ map (fun r => (cr_username r, cr_variable r, cr_corrected_by r, cr_explanation r)) rows
        = [("alice", "v1", "bob", ""); ("alice", "v2", "bob", ""); ("bob", "v3", "bob", " ok ")]
     /\ Py.strip (Py.decode " ok ") <> Py.decode " ok ".
Proof.
  vm_compute. split; [reflexivity|]. split; [reflexivity|]. split; [reflexivity|].
  do 2 eexists. split; [reflexivity|]. split; [reflexivity | discriminate].
Qed.

Lemma build_corrections_pending env d acc s s' o :
  build_corrections env d acc s = (s', o) -> all_corrections_data s' = all_corrections_data s.
Proof.
  revert acc s; induction d as [|[k cd] t IH]; intros acc s H; simpl in H.
  - injection H as <- _. reflexivity.
  - apply bind_inv in H as [(s1 & rec & H1 & H2) | (H1 & _)].
    + destruct (correction_record_inv env k cd s s1 _ H1) as [-> _].
      unfold bind, modify in H2. rewrite (IH _ _ H2). reflexivity.
    + destruct (correction_record_inv env k cd s s' _ H1) as [-> _]. reflexivity.
Qed.

Definition entries_from (ctab : list CRow) (ltab : list LRow) (s : Sess) : Prop :=
  forall k cd, In (k, cd) (all_corrections_data s) -> source_entry ctab ltab k cd.

Lemma source_entry_mono ctab ltab ec el k cd :
  incl ec ctab -> incl el ltab -> source_entry ec el k cd -> source_entry ctab ltab k cd.
Proof.
  intros Hc Hl [(r & Hr & E) | (r & Hr & E)]; [left | right]; exists r; split; auto.
Qed.

Lemma incl_enumerator_constraints ctab enum R : incl (enumerator_constraints ctab enum R) ctab.
Proof.
  intros r Hr. unfold enumerator_constraints in Hr.
  apply filter_In in Hr as [Hr _]. apply filter_In in Hr as [Hr _]. exact Hr.
Qed.

Lemma incl_enumerator_logic ltab enum R : incl (enumerator_logic ltab enum R) ltab.
Proof.
  intros r Hr. unfold enumerator_logic in Hr.
  apply filter_In in Hr as [Hr _]. apply filter_In in Hr as [Hr _]. exact Hr.
Qed.


(** Every pending entry of a reachable session is the entry of a source
    row, under that row's key and with its type tag. *)
Lemma reachable_entries_from ctab ltab s :
  reachable ctab ltab s ->
  forall k cd, In (k, cd) (all_corrections_data s) -> source_entry ctab ltab k cd.
Proof.
  induction 1 as [r | s env Hreach IH Hct Hlt].
  - intros k cd [].
  - fold (entries_from ctab ltab (fst (script env s))).
    destruct (script env s) as [s' o] eqn:Hs. simpl.
    apply script_cases in Hs.
    set (ec := enumerator_constraints (constraints_df env) (selected_enumerator env) (corrected_errors s)) in Hs.
    set (el := enumerator_logic (logic_df env) (selected_enumerator env) (corrected_errors s)) in Hs.
    assert (Hpass : forall s1 s2 o1,
               mapM_ (render_farmer env ec el) (all_farmers_with_errors ec el) s1 = (s2, o1) ->
               entries_from ctab ltab s1 -> entries_from ctab ltab s2).
    { intros s1 s2 o1 H1.
      apply (render_pass_preserve env ec el _ (all_farmers_with_errors ec el)) with (s := s1) (o := o1);
        [| exact H1].
      intros x y [-> | (k & cd & [_ Hn] & ->)] Hx; [exact Hx|].
      intros k' cd' Hin. simpl in Hin. apply dict_set_in_inv in Hin as [[-> ->] | Hin]; [|auto].
      apply (source_entry_mono ctab ltab ec el); [subst ec ctab; apply incl_enumerator_constraints
        | subst el ltab; apply incl_enumerator_logic | exact Hn]. }
    destruct Hs as [(_ & -> & _) | (_ & [(H1 & _) | (s1 & H1 & [(_ & H2) | (_ & -> & _)])])].
    + exact IH.
    + exact (Hpass _ _ _ H1 IH).
    + assert (IH1 := Hpass _ _ _ H1 IH).
      apply save_handler_cases in H2.
      destruct H2 as [(_ & -> & _) | [(_ & s2 & rows & Hb & Hcase) | (_ & Hb & _)]].
      * exact IH1.
      * intros k cd Hin.
        destruct Hcase as [(_ & -> & _) | [(_ & _ & -> & _) | (_ & ver & -> & _)]];
          [ | | destruct Hin];
          rewrite (build_corrections_pending _ _ _ _ _ _ Hb) in Hin; exact (IH1 k cd Hin).
      * intros k cd Hin. rewrite (build_corrections_pending _ _ _ _ _ _ Hb) in Hin.
        exact (IH1 k cd Hin).
    + exact (Hpass _ _ _ H1 IH).
Qed.

(** C9 (code_bug): pending entries are never dropped when the selected
    account changes, nor when their key becomes resolved.  alice renders
    her errors and leaves without saving; after bob's run the map still
    holds alice's entry although none of bob's outstanding errors has its
    key (these stale entries are the ones counted in C4 and committed in
    C3).  And when alice's save fails at the write, her keys are in the
    resolved set while their entries stay in the map. *)
Theorem pending_survives_account_switch :
  let s1 := fst (script (mk_env "alice" (fun _ => "checked") false true) s0) in
  let s2 := fst (script (mk_env "bob" (fun _ => "") false true) s1) in
  let s3 := fst (script (mk_env "alice" (fun _ => "checked") true false) s0) in
  reachable ctab ltab s2
  /\ (exists cd, In (ckey ra, cd) (all_corrections_data s2))
  /\ ~ (exists r, In r (enumerator_constraints ctab "bob" (corrected_errors s2)) /\ ckey r = ckey ra)
  /\ ~ (exists r, In r (enumerator_logic ltab "bob" (corrected_errors s2)) /\ lkey r = ckey ra)
  /\ reachable ctab ltab s3
  /\ In (ckey ra) (corrected_errors s3)
  /\ (exists cd, In (ckey ra, cd) (all_corrections_data s3)).
Proof.
  intros s1 s2 s3.
  split; [repeat (apply reach_run; [| reflexivity | reflexivity]); apply reach_init|].
  split; [eexists; vm_compute; left; reflexivity|].
  split; [|split]; [intros (r & Hr & E); vm_compute in Hr .. |].
  - destruct Hr as [<- | []]. vm_compute in E. discriminate.
  - destruct Hr.
  - split; [apply reach_run; [apply reach_init | reflexivity | reflexivity]|].
    split; [vm_compute; left; reflexivity|].
    eexists; vm_compute; left; reflexivity.
Qed.

(** C10 (code_bug): a logic row raises (ValueError) when its reported or
    'Troster Value' cell is not an integer, leaving the session as it was;
    but the constraint path raises as well on a non-integer reported value.
    For the rule "min 200000" the bounds are 200000 and the default 100000,
    the unparsable "n/a" falls back to 200000, and the number widget
    refuses a value above its [max_value] (and a [min_value] above it). *)
Theorem constraint_row_raises_unparsable :
  (forall env lr s,
     (py_int (value (l_id lr)) = None \/ py_int (troster_value lr) = None) ->
     render_logic env lr s = (s, None))
  /\ let r := {| c_id := idn "6" "v6" "alice" (CStr "n/a"); constraint := "min 200000" |} in
     py_int (CStr "n/a") = None /\ infer_bounds "min 200000" = (200000, 100000)
     /\ current_value (CStr "n/a") 200000 100000 = 200000
     /\ forall env s, render_constraint env r s = (s, None).
Proof.
  split.
  - intros env lr s. unfold render_logic. intros [E | E]; rewrite E; [reflexivity|].
    destruct (py_int (value (l_id lr))); reflexivity.
  - intros r. split; [vm_compute; reflexivity|]. split; [vm_compute; reflexivity|].
    split; [vm_compute; reflexivity|]. intros env s. vm_compute. reflexivity.
Qed.

Lemma constraint_row_raises_unparsable_witness :
  let env := mk_env "alice" (fun _ => "checked") false true in
  py_int (CStr "forty") = None
  /\ render_logic env {| l_id := idn "4" "v4" "alice" (CStr "forty"); troster_value := CInt 25 |} s0
     = (s0, None).
Proof.
  intros env. split; [vm_compute; reflexivity|].
  apply (proj1 constraint_row_raises_unparsable). left. vm_compute. reflexivity.
Defined.

(** * Further properties of the code *)



Lemma prefix_app n t : String.prefix n (n ++ t) = true.
Proof.
  induction n as [|c n IH]; [destruct t; reflexivity|].
  simpl. destruct (ascii_dec c c); [exact IH | congruence].
Qed.

Lemma contains_app_l n t : Py.contains n (n ++ t) = true.
Proof.
  assert (H := prefix_app n t). revert H. generalize (n ++ t). intros h H.
  destruct h as [|c h]; cbn [Py.contains]; rewrite H; reflexivity.
Qed.

(** X3: the label of a pending constraint error is always
    "Constraint error for {variable}", its key starting with "constraint_". *)
Theorem missing_label_constraint r cd :
  missing_label (ckey r) cd = "Constraint error for " ++ variable (data_ident (error_data cd)).
Proof.
  unfold missing_label, ckey.
  change ("constraint_" ++ unique_id (c_id r) ++ "_" ++ variable (c_id r))
    with ("constraint" ++ ("_" ++ unique_id (c_id r) ++ "_" ++ variable (c_id r))).
  rewrite contains_app_l. reflexivity.
Qed.

Lemma build_corrections_session env d acc s s' o :
  build_corrections env d acc s = (s', o) ->
  remote s' = remote s
  /\ forall k, set_mem k (corrected_errors s) = true -> set_mem k (corrected_errors s') = true.
Proof.
  revert acc s; induction d as [|[k cd] t IH]; intros acc s H; simpl in H.
  - injection H as <- _. split; [reflexivity | tauto].
  - apply bind_inv in H as [(s1 & rec & H1 & H2) | (H1 & _)].
    + destruct (correction_record_inv env k cd s s1 _ H1) as [-> _].
      unfold bind, modify in H2. destruct (IH _ _ H2) as [Hr Hm].
      split; [exact Hr|]. intros k' Hk. apply Hm. simpl. rewrite set_mem_add, Hk. reflexivity.
    + destruct (correction_record_inv env k cd s s' _ H1) as [-> _]. split; [reflexivity | tauto].
Qed.

(** X7: within a session the resolved set only grows: no run removes a key
    from [corrected_errors]. *)
Theorem corrected_errors_monotone env s k :
  set_mem k (corrected_errors s) = true -> set_mem k (corrected_errors (fst (script env s))) = true.
Proof.
  intros Hk. destruct (script env s) as [s' o] eqn:Hs. simpl.
  apply script_cases in Hs.
  destruct Hs as [(_ & -> & _) | (_ & [(H1 & _) | (s1 & H1 & [(_ & H2) | (_ & -> & _)])])].
  - exact Hk.
  - destruct (render_pass_session _ _ _ _ _ _ _ H1) as [-> _]. exact Hk.
  - destruct (render_pass_session _ _ _ _ _ _ _ H1) as [Hc _]. rewrite <- Hc in Hk.
    apply save_handler_cases in H2.
    destruct H2 as [(_ & -> & _) | [(_ & s2 & rows & Hb & Hcase) | (_ & Hb & _)]].
    + exact Hk.
    + destruct (build_corrections_session _ _ _ _ _ _ Hb) as [_ Hm].
      destruct Hcase as [(_ & -> & _) | [(_ & _ & -> & _) | (_ & ver & -> & _)]]; apply Hm; exact Hk.
    + destruct (build_corrections_session _ _ _ _ _ _ Hb) as [_ Hm]. apply Hm. exact Hk.
  - destruct (render_pass_session _ _ _ _ _ _ _ H1) as [-> _]. exact Hk.
Qed.

Lemma script_remote_unchanged env s s' o :
  script env s = (s', o) ->
  (forall n, o <> Some (Saved n)) -> remote s' = remote s.
Proof.
  intros Hs Ho. apply script_cases in Hs.
  destruct Hs as [(_ & -> & _) | (_ & [(H1 & _) | (s1 & H1 & [(_ & H2) | (_ & -> & _)])])].
  - reflexivity.
  - apply (render_pass_session _ _ _ _ _ _ _ H1).
  - destruct (render_pass_session _ _ _ _ _ _ _ H1) as [_ Hr]. rewrite <- Hr.
    apply save_handler_cases in H2.
    destruct H2 as [(_ & -> & _) | [(_ & s2 & rows & Hb & Hcase) | (_ & Hb & _)]].
    + reflexivity.
    + destruct (build_corrections_session _ _ _ _ _ _ Hb) as [Hb' _].
      destruct Hcase as [(_ & -> & _) | [(_ & _ & -> & _) | (_ & ver & _ & Hs')]];
        [exact Hb' | exact Hb' | destruct (Ho _ Hs')].
    + apply (build_corrections_session _ _ _ _ _ _ Hb).
  - apply (render_pass_session _ _ _ _ _ _ _ H1).
Qed.

(** X8: a run changes the ledger (the corrections file on GitHub) only
    when it ends in [Saved n]: a refused, failed, merely rendered or
    all-corrected run leaves it as it was. *)
Theorem ledger_changes_only_on_saved env s s' o :
  script env s = (s', o) ->
  (forall n, o <> Some (Saved n)) -> remote s' = remote s.
Proof. apply script_remote_unchanged. Qed.

(** X9: a run ending in [Saved n] empties the pending map and leaves in
    the ledger exactly [n] rows. *)
Theorem saved_run_ledger env s s' n :
  script env s = (s', Some (Saved n)) ->
  all_corrections_data s' = []
  /\ exists ver rows, remote s' = Some (ver, rows) /\ List.length rows = n.
Proof.
  intros Hs. apply script_cases in Hs.
  destruct Hs as [(_ & _ & Ho) | (_ & [(_ & Ho) | (s1 & _ & [(_ & H2) | (_ & _ & Ho)])])];
    try discriminate.
  apply save_handler_cases in H2.
  destruct H2 as [(_ & _ & Ho) | [(_ & s2 & rows & _ & Hcase) | (_ & _ & Ho)]]; try discriminate.
  destruct Hcase as [(_ & _ & Ho) | [(_ & _ & _ & Ho) | (_ & ver & -> & Ho)]]; try discriminate.
  injection Ho as Hn. subst n. split; [reflexivity|]. exists ver, rows. split; reflexivity.
Qed.

Lemma saved_run_ledger_witness :
  let env := mk_env "alice" (fun _ => "checked") true true in
  script env s0 = (fst (script env s0), Some (Saved 2))
  /\ all_corrections_data (fst (script env s0)) = [].
Proof.
  intros env.
  assert (H : script env s0 = (fst (script env s0), Some (Saved 2))) by (vm_compute; reflexivity).
  split; [exact H | apply (saved_run_ledger env s0 _ 2 H)].
Defined.

Lemma ledger_changes_only_on_saved_witness :
  let env := mk_env "alice" (fun _ => "checked") true false in
  script env s0 = (fst (script env s0), Some SaveFailed)
  /\ remote (fst (script env s0)) = remote s0.
Proof.
  intros env.
  assert (H : script env s0 = (fst (script env s0), Some SaveFailed)) by (vm_compute; reflexivity).
  split; [exact H|]. apply (ledger_changes_only_on_saved env s0 _ _ H). discriminate.
Defined.

Lemma corrected_errors_monotone_witness :
  set_mem (ckey ra) [ckey ra] = true
  /\ set_mem (ckey ra)
       (corrected_errors (fst (script (mk_env "alice" (fun _ => "") true true)
                                 (set_corrected [ckey ra] s0)))) = true.
Proof.
  split; [reflexivity|]. apply corrected_errors_monotone. reflexivity.
Defined.

Lemma pending_nonempty_after_render env ec el s s1 :
  all_farmers_with_errors ec el <> [] ->
  mapM_ (render_farmer env ec el) (all_farmers_with_errors ec el) s = (s1, Some tt) ->
  all_corrections_data s1 <> [].
Proof.
  intros Hne Hr.
  destruct (all_farmers_with_errors ec el) as [|f fs] eqn:Ef; [congruence|].
  assert (Hf : In f (all_farmers_with_errors ec el)) by (rewrite Ef; left; reflexivity).
  unfold all_farmers_with_errors in Hf. rewrite sorted_set_in, in_app_iff, !in_map_iff in Hf.
  rewrite <- Ef in Hr.
  destruct Hf as [(r & <- & Hin) | (r & <- & Hin)].
  - destruct (render_pass_has_constraint env ec el _ r s s1 Hin
                ltac:(apply sorted_set_in, in_or_app; left;
                      apply (in_map (fun x => unique_id (c_id x))); exact Hin) Hr)
      as (cd & Hcd & _).
    destruct (all_corrections_data s1); [destruct Hcd | discriminate].
  - destruct (render_pass_has_logic env ec el _ r s s1 Hin
                ltac:(apply sorted_set_in, in_or_app; right;
                      apply (in_map (fun x => unique_id (l_id x))); exact Hin) Hr)
      as (cd & Hcd & _).
    destruct (all_corrections_data s1); [destruct Hcd | discriminate].
Qed.

(** X10: a run whose write fails keeps the ledger as it was and keeps the
    pending map just rendered (not empty), while every one of its keys has
    already been added to the resolved set. *)
Theorem save_failed_keeps_edits env s s' :
  script env s = (s', Some SaveFailed) ->
  remote s' = remote s
  /\ exists s1,
       let ec := enumerator_constraints (constraints_df env) (selected_enumerator env) (corrected_errors s) in
       let el := enumerator_logic (logic_df env) (selected_enumerator env) (corrected_errors s) in
       mapM_ (render_farmer env ec el) (all_farmers_with_errors ec el) s = (s1, Some tt)
       /\ all_corrections_data s' = all_corrections_data s1 /\ all_corrections_data s1 <> []
       /\ forall k, In k (map fst (all_corrections_data s1)) -> set_mem k (corrected_errors s') = true.
Proof.
  intros Hs.
  split; [apply (script_remote_unchanged env s s' _ Hs); discriminate|].
  apply script_cases in Hs.
  destruct Hs as [(_ & _ & Ho) | (Hne & [(_ & Ho) | (s1 & Hr & [(_ & H2) | (_ & _ & Ho)])])];
    try discriminate.
  exists s1. split; [exact Hr|].
  split; [|split; [exact (pending_nonempty_after_render _ _ _ _ _ Hne Hr)|]].
  - apply save_handler_cases in H2.
    destruct H2 as [(_ & _ & Ho) | [(_ & s2 & rows & Hb & Hcase) | (_ & _ & Ho)]]; try discriminate.
    destruct Hcase as [(_ & _ & Ho) | [(_ & _ & -> & _) | (_ & ver & _ & Ho)]]; try discriminate.
    apply (build_corrections_inv _ _ _ _ _ _ Hb).
  - intros k Hk. apply save_handler_cases in H2.
    destruct H2 as [(_ & _ & Ho) | [(_ & s2 & rows & Hb & Hcase) | (_ & _ & Ho)]]; try discriminate.
    destruct Hcase as [(_ & _ & Ho) | [(_ & _ & -> & _) | (_ & ver & _ & Ho)]]; try discriminate.
    destruct (build_corrections_inv _ _ _ _ _ _ Hb) as (_ & _ & Hm & _).
    apply Hm. right. exact Hk.
Qed.

Lemma save_failed_keeps_edits_witness :
  let env := mk_env "alice" (fun _ => "checked") true false in
  script env s0 = (fst (script env s0), Some SaveFailed)
  /\ remote (fst (script env s0)) = None.
Proof.
  intros env.
  assert (H : script env s0 = (fst (script env s0), Some SaveFailed)) by (vm_compute; reflexivity).
  split; [exact H | apply (save_failed_keeps_edits env s0 _ H)].
Defined.

(** X11: the "No corrections found to save" branch is dead: whenever the
    button is shown, the rendering has filled at least one pending entry, so
    a run never ends in [NothingToSave]. *)
Theorem nothing_to_save_unreachable env s s' :
  script env s <> (s', Some NothingToSave).
Proof.
  intros Hs. apply script_cases in Hs.
  destruct Hs as [(_ & _ & Ho) | (Hne & [(_ & Ho) | (s1 & Hr & [(_ & H2) | (_ & _ & Ho)])])];
    try discriminate.
  apply save_handler_cases in H2.
  destruct H2 as [(_ & _ & Ho) | [(_ & s2 & rows & Hb & Hcase) | (_ & _ & Ho)]]; try discriminate.
  destruct Hcase as [(-> & _ & _) | [(_ & _ & _ & Ho) | (_ & ver & _ & Ho)]]; try discriminate.
  destruct (build_corrections_inv _ _ _ _ _ _ Hb) as (_ & _ & _ & rs & Hrs & Hf).
  destruct rs; [|discriminate]. inversion Hf as [Hp | ]; subst.
  apply (pending_nonempty_after_render _ _ _ _ _ Hne Hr). congruence.
Qed.







Lemma nothing_to_save_unreachable_witness :
  let env := mk_env "alice" (fun _ => "") true true in
  script env s0 <> (fst (script env s0), Some NothingToSave).
Proof. intros env. apply (nothing_to_save_unreachable env s0). Defined.

(** X17: a run that saves writes one record per entry of the pending map
    as that run's rendering left it, in map order, each with its entry's
    corrected value and its explanation as typed; and every outstanding
    error of the selected account has an entry holding the values of its
    widgets in that run. *)
Theorem commit_one_record_per_entry env s s' n :
  script env s = (s', Some (Saved n)) ->
  let ec := enumerator_constraints (constraints_df env) (selected_enumerator env) (corrected_errors s) in
  let el := enumerator_logic (logic_df env) (selected_enumerator env) (corrected_errors s) in
  exists s1 ver rows,
    mapM_ (render_farmer env ec el) (all_farmers_with_errors ec el) s = (s1, Some tt)
    /\ remote s' = Some (ver, rows) /\ n = List.length rows
    /\ Forall2 rec_rel (all_corrections_data s1) rows
    /\ (forall r, In r ec -> has_entry env (ckey r) s1)
    /\ (forall r, In r el -> has_entry env (lkey r) s1).
Proof.
  intros H ec el. apply script_cases in H. fold ec el in H.
  destruct H as [(_ & _ & Ho) | (Hne & [(_ & Ho) | (s1 & Hr & [(Hc & Hs) | (_ & _ & Ho)])])];
    try discriminate.
  apply save_handler_cases in Hs.
  destruct Hs as [(_ & _ & Ho) | [(_ & s2 & rows & Hb & Hcase) | (_ & _ & Ho)]]; try discriminate.
  destruct (build_corrections_inv _ _ _ _ _ _ Hb) as (Hp & _ & _ & rs & Hrs & Hf).
  destruct Hcase as [(_ & _ & Ho) | [(_ & _ & _ & Ho) | (_ & ver & -> & Ho)]]; try discriminate.
  injection Ho as ->. simpl in Hrs. subst rs.
  exists s1, ver, rows. split; [exact Hr|]. split; [reflexivity|]. split; [reflexivity|].
  split; [exact Hf|]. split.
  - intros r Hin. eapply render_pass_has_constraint; [exact Hin | | exact Hr].
    apply sorted_set_in. apply in_or_app. left. apply (in_map (fun x => unique_id (c_id x))). exact Hin.
  - intros r Hin. eapply render_pass_has_logic; [exact Hin | | exact Hr].
    apply sorted_set_in. apply in_or_app. right. apply (in_map (fun x => unique_id (l_id x))). exact Hin.
Qed.

Lemma commit_one_record_per_entry_witness :
  let env := mk_env "alice" (fun _ => "checked") true true in
  script env s0 = (fst (script env s0), Some (Saved 2))
  /\ exists s1 ver rows,
       remote (fst (script env s0)) = Some (ver, rows)
       /\ Forall2 rec_rel (all_corrections_data s1) rows
       /\ has_entry env (ckey ra) s1 /\ has_entry env (lkey rb) s1.
Proof.
  intros env.
  assert (H : script env s0 = (fst (script env s0), Some (Saved 2))) by (vm_compute; reflexivity).
  split; [exact H|].
  destruct (commit_one_record_per_entry env s0 _ 2 H)
    as (s1 & ver & rows & _ & Hrem & _ & Hf & Hc & Hl).
  exists s1, ver, rows. split; [exact Hrem|]. split; [exact Hf|].
  split; [apply Hc | apply Hl]; vm_compute; tauto.
Defined.

(** X18: across the runs of a session, every pending entry is the entry of
    a row of the source tables, stored under that row's key and with its
    type tag and row. *)
Theorem pending_entries_from_source ctab ltab s :
  reachable ctab ltab s ->
  forall k cd, In (k, cd) (all_corrections_data s) -> source_entry ctab ltab k cd.
Proof. apply reachable_entries_from. Qed.

Lemma pending_entries_from_source_witness :
  let s1 := fst (script (mk_env "alice" (fun _ => "checked") false true) s0) in
  reachable ctab ltab s1
  /\ exists cd, In (ckey ra, cd) (all_corrections_data s1) /\ source_entry ctab ltab (ckey ra) cd.
Proof.
  intros s1.
  assert (Hr : reachable ctab ltab s1) by (apply reach_run; [apply reach_init | reflexivity | reflexivity]).
  split; [exact Hr|].
  assert (Hin : exists cd, In (ckey ra, cd) (all_corrections_data s1))
    by (eexists; vm_compute; left; reflexivity).
  destruct Hin as [cd Hin]. exists cd. split; [exact Hin|].
  exact (pending_entries_from_source ctab ltab s1 Hr (ckey ra) cd Hin).
Defined.









